(** * Cinema matcher: normalisation, matching index and report

    A shallow embedding of [scripts-scraper/cinema_matcher.py].

    Python strings are sequences of Unicode code points; they are lists of
    [N] here.  Dictionaries keep insertion order, which the loops of
    [create_matching_index] observe, so they are association lists.
    Exceptions are an explicit error type.  Line 77 computes in IEEE 754
    doubles: [match_percentage_value] is the number it stores, the int 0
    or a double rounded after the division and again after the
    multiplication; [match_percentage] is the exact quotient times 100,
    which that double approximates. *)

From Stdlib Require Import Ascii String.
From Stdlib Require Import List Bool NArith ZArith QArith Lia Permutation.
From Stdlib Require Import Floats.SpecFloat.
Import ListNotations.

Set Implicit Arguments.
Local Close Scope Q_scope.

(** ** Strings *)

Definition char := N.
Definition str := list char.

(** An ASCII literal as a Python string (one code point per byte). *)
Definition lit (s : string) : str := map N_of_ascii (list_ascii_of_string s).

Fixpoint str_eqb (a b : str) : bool :=
  match a, b with
  | [], [] => true
  | x :: a', y :: b' => (x =? y)%N && str_eqb a' b'
  | _, _ => false
  end.

Definition str_eq_dec : forall a b : str, {a = b} + {a <> b} :=
  list_eq_dec N.eq_dec.

(** ** Character classes

    The classes [\d], [\w], [\s] of a [str] pattern and the methods
    [str.lower] and [str.strip] follow the Unicode character database of the
    interpreter.  On ASCII they are fixed and written out; beyond ASCII the
    database is a parameter of the development. *)

Record UnicodeData : Type := {
  ucd_isalnum : char -> bool;    (* str.isalnum on one code point >= 128 *)
  ucd_isdecimal : char -> bool;  (* str.isdecimal on one code point >= 128 *)
  ucd_isspace : char -> bool;    (* str.isspace on one code point >= 128 *)
  ucd_lower : str -> str         (* str.lower on a string that is not ASCII *)
}.

Local Open Scope N_scope.

Definition is_ascii (c : char) : bool := c <? 128.

Definition ascii_isdigit (c : char) : bool := (48 <=? c) && (c <=? 57).
Definition ascii_isupper (c : char) : bool := (65 <=? c) && (c <=? 90).
Definition ascii_islower (c : char) : bool := (97 <=? c) && (c <=? 122).
Definition ascii_isalnum (c : char) : bool :=
  ascii_isdigit c || ascii_isupper c || ascii_islower c.
(* \t \n \v \f \r, the separators 0x1c..0x1f and the space *)
Definition ascii_isspace (c : char) : bool :=
  ((9 <=? c) && (c <=? 13)) || ((28 <=? c) && (c <=? 32)).
Definition ascii_lower (c : char) : char :=
  if ascii_isupper c then c + 32 else c.

Definition hyphen : char := 45.
Definition underscore : char := 95.
Definition newline : char := 10.

Section Normalizer.

Variable U : UnicodeData.

(** [\d] *)
Definition re_digit (c : char) : bool :=
  if is_ascii c then ascii_isdigit c else ucd_isdecimal U c.

(** [\w] *)
Definition re_word (c : char) : bool :=
  if is_ascii c then ascii_isalnum c || (c =? underscore)
  else ucd_isalnum U c.

(** [\s]; [str.strip()] removes the same characters *)
Definition re_space (c : char) : bool :=
  if is_ascii c then ascii_isspace c else ucd_isspace U c.

(** Does [-\d{4}$] match at the head of [s]?  Without [re.MULTILINE], [$]
    matches at the end of the string and just before a newline that ends
    the string. *)
Definition year_here (s : str) : bool :=
  match s with
  | h :: d1 :: d2 :: d3 :: d4 :: rest =>
      (h =? hyphen) && re_digit d1 && re_digit d2 && re_digit d3
      && re_digit d4
      && match rest with
         | [] => true
         | [c] => c =? newline
         | _ => false
         end
  | _ => false
  end.

(** [re.sub(r'-\d{4}$', '', title)]: scan from the left and drop the five
    matched characters.  What follows a match is empty or one newline, too
    short for a second match, and is kept as it is. *)
Fixpoint sub_year (s : str) : str :=
  match s with
  | [] => []
  | c :: t => if year_here s then skipn 4 t else c :: sub_year t
  end.

(** [re.sub(r'[^\w\s]', '', clean)] *)
Definition sub_special (s : str) : str :=
  filter (fun c => re_word c || re_space c) s.

(** [str.lower()]: byte-wise on an ASCII string, the full Unicode case
    mapping otherwise. *)
Definition str_lower (s : str) : str :=
  if forallb is_ascii s then map ascii_lower s else ucd_lower U s.

Fixpoint lstrip (s : str) : str :=
  match s with
  | [] => []
  | c :: t => if re_space c then lstrip t else s
  end.

Fixpoint rstrip (s : str) : str :=
  match s with
  | [] => []
  | c :: t =>
      match rstrip t with
      | [] => if re_space c then [] else [c]
      | t' => c :: t'
      end
  end.

(** [str.strip()] *)
Definition str_strip (s : str) : str := rstrip (lstrip s).

Definition normalize_title (title : str) : str :=
  let clean := sub_year title in
  let clean := sub_special clean in
  str_strip (str_lower clean).

End Normalizer.

(** The entries of the Unicode character database for the Latin-1
    Supplement (U+0080..U+00FF), for U+0130 (capital I with dot above) and
    for U+0307 (combining dot above).  Code points outside this fragment
    are not described: they are given no property and no case mapping. *)
Definition fragment_isalnum (c : char) : bool :=
  (c =? 0xAA) || (c =? 0xB2) || (c =? 0xB3) || (c =? 0xB5) || (c =? 0xB9)
  || (c =? 0xBA) || ((0xBC <=? c) && (c <=? 0xBE))
  || ((0xC0 <=? c) && (c <=? 0xD6)) || ((0xD8 <=? c) && (c <=? 0xF6))
  || ((0xF8 <=? c) && (c <=? 0xFF)) || (c =? 0x130).

Definition fragment_isspace (c : char) : bool := (c =? 0x85) || (c =? 0xA0).

Definition fragment_lower_char (c : char) : str :=
  if is_ascii c then [ascii_lower c]
  else if ((0xC0 <=? c) && (c <=? 0xDE)) && negb (c =? 0xD7) then [c + 32]
  else if c =? 0x130 then [0x69; 0x307]
  else [c].

Definition ucd_fragment : UnicodeData := {|
  ucd_isalnum := fragment_isalnum;
  ucd_isdecimal := fun _ => false;
  ucd_isspace := fragment_isspace;
  ucd_lower := flat_map fragment_lower_char
|}.

Local Close Scope N_scope.

(** ** Exceptions *)

Inductive exn : Type :=
| KeyError (k : str)
| ZeroDivisionError.

Inductive result (A : Type) : Type :=
| Ok (a : A)
| Raise (e : exn).

Arguments Ok {A} a.
Arguments Raise {A} e.

Definition bind {A B : Type} (m : result A) (f : A -> result B) : result B :=
  match m with
  | Ok a => f a
  | Raise e => Raise e
  end.

Notation "x <- m ;; k" := (bind m (fun x => k))
  (at level 61, m at next level, right associativity).
Notation "' p <- m ;; k" := (bind m (fun x => match x with p => k end))
  (at level 61, p pattern, m at next level, right associativity).

(** ** Dictionaries

    A [dict] with [str] keys, in insertion order.  Assigning to a key that
    is present replaces the value and leaves the key where it is. *)

Section Dict.

Variable V : Type.

Definition dict := list (str * V).

Fixpoint dict_get (d : dict) (k : str) : option V :=
  match d with
  | [] => None
  | (k', v) :: r => if str_eqb k k' then Some v else dict_get r k
  end.

(** [k in d] *)
Definition dict_contains (d : dict) (k : str) : bool :=
  match dict_get d k with
  | Some _ => true
  | None => false
  end.

(** [d[k]] *)
Definition dict_getitem (d : dict) (k : str) : result V :=
  match dict_get d k with
  | Some v => Ok v
  | None => Raise (KeyError k)
  end.

(** [d[k] = v] *)
Fixpoint dict_setitem (d : dict) (k : str) (v : V) : dict :=
  match d with
  | [] => [(k, v)]
  | (k', v') :: r =>
      if str_eqb k k' then (k', v) :: r else (k', v') :: dict_setitem r k v
  end.

(** [d.items()] *)
Definition dict_items (d : dict) : list (str * V) := d.

Definition dict_keys (d : dict) : list str := map fst d.

End Dict.

(** [{f(x): x for x in xs}] *)
Definition dict_comp (f : str -> str) (xs : list str) : dict str :=
  fold_left (fun d x => dict_setitem d (f x) x) xs [].

(** ** The matcher *)

Record match_record : Type := {
  script : str;
  film : str;
  normalized : str
}.

(** A Python number: an int or a float, which is a binary64 double. *)
Inductive number : Type :=
| Int (z : Z)
| Float (x : spec_float).

Record stats : Type := {
  total_films : Z;
  total_scripts : Z;
  matches_found : Z;
  match_percentage : Q;
  match_percentage_value : number
}.

Record results : Type := {
  matches : list match_record;
  unmatched_scripts : list str;
  unmatched_films : list str;
  results_stats : stats
}.

Definition len {A : Type} (l : list A) : Z := Z.of_nat (length l).

(** The exact value of [a / b] on integers; [int_truediv] below is the
    double that Python returns. *)
Definition truediv (a b : Z) : result Q :=
  if (b =? 0)%Z then Raise ZeroDivisionError
  else Ok (inject_Z a / inject_Z b)%Q.

(** An integer as an operand of a double operation, not rounded. *)
Definition exact_int (z : Z) : spec_float :=
  match z with
  | Z0 => S754_zero false
  | Zpos p => S754_finite false p 0
  | Zneg p => S754_finite true p 0
  end.

(** The double nearest to the quotient of two integers, ties to even. *)
Definition double_quotient (a b : Z) : spec_float :=
  SFdiv 53 1024 (exact_int a) (exact_int b).

(** [a / b] on integers, as Python computes it: the quotient is rounded
    once, to a double.  (A quotient too large for a double, which Python
    refuses with an OverflowError, is an infinity here; line 77 divides a
    length by a length that is no smaller.) *)
Definition int_truediv (a b : Z) : result spec_float :=
  if (b =? 0)%Z then Raise ZeroDivisionError
  else Ok (double_quotient a b).

(** [x * k] for a double [x] and a small integer [k], which converts to a
    double exactly: the product is rounded to a double. *)
Definition float_mul_int (x : spec_float) (k : Z) : spec_float :=
  SFmul 53 1024 x (exact_int k).

Arguments double_quotient : simpl never.
Arguments float_mul_int : simpl never.

(** Truth value of a list *)
Definition truthy {A : Type} (l : list A) : bool :=
  match l with
  | [] => false
  | _ :: _ => true
  end.

(** [for norm_script, original_script in script_index.items(): ...] *)
Fixpoint scripts_loop (film_index : dict str) (items : list (str * str))
    (matches : list match_record) (unmatched_scripts : list str)
    : result (list match_record * list str) :=
  match items with
  | [] => Ok (matches, unmatched_scripts)
  | (norm_script, original_script) :: rest =>
      if dict_contains film_index norm_script then
        f <- dict_getitem film_index norm_script ;;
        scripts_loop film_index rest
          (matches ++ [{| script := original_script;
                          film := f;
                          normalized := norm_script |}])
          unmatched_scripts
      else
        scripts_loop film_index rest matches
          (unmatched_scripts ++ [original_script])
  end.

(** [for norm_film, original_film in film_index.items(): ...] *)
Fixpoint films_loop (script_index : dict str) (items : list (str * str))
    (unmatched_films : list str) : list str :=
  match items with
  | [] => unmatched_films
  | (norm_film, original_film) :: rest =>
      if negb (dict_contains script_index norm_film) then
        films_loop script_index rest (unmatched_films ++ [original_film])
      else
        films_loop script_index rest unmatched_films
  end.

(** What the two loops compute, in closed form: the record an item gives
    rise to, the records of all items, and the values of the items whose
    key the other dictionary lacks. *)
Definition match_of (film_index : dict str) (item : str * str)
    : list match_record :=
  match dict_get film_index (fst item) with
  | Some f => [{| script := snd item; film := f; normalized := fst item |}]
  | None => []
  end.

Definition matched_items (film_index : dict str) (items : list (str * str))
    : list match_record :=
  flat_map (match_of film_index) items.

Definition missing_items (other : dict str) (items : list (str * str))
    : list str :=
  map snd (filter (fun kv => negb (dict_contains other (fst kv))) items).

Section Matcher.

Variable U : UnicodeData.

Definition film_index (films : list str) : dict str :=
  dict_comp (normalize_title U) films.

Definition script_index (scripts : list str) : dict str :=
  dict_comp (normalize_title U) scripts.

(** [create_matching_index], on the lists that [load_films()] and
    [load_scripts()] return.  The expression of line 77 is given twice:
    its exact value and the number that the doubles give. *)
Definition create_matching_index (films scripts : list str)
    : result results :=
  let film_index := film_index films in
  let script_index := script_index scripts in
  ' (matches, unmatched_scripts) <-
      scripts_loop film_index (dict_items script_index) [] [] ;;
  let unmatched_films := films_loop script_index (dict_items film_index) [] in
  percentage <-
    (if truthy scripts then
       q <- truediv (len matches) (len scripts) ;; Ok (q * 100)%Q
     else Ok 0%Q) ;;
  value <-
    (if truthy scripts then
       x <- int_truediv (len matches) (len scripts) ;;
       Ok (Float (float_mul_int x 100))
     else Ok (Int 0)) ;;
  Ok {| matches := matches;
        unmatched_scripts := unmatched_scripts;
        unmatched_films := unmatched_films;
        results_stats :=
          {| total_films := len films;
             total_scripts := len scripts;
             matches_found := len matches;
             match_percentage := percentage;
             match_percentage_value := value |} |}.

End Matcher.

(** ** The report *)

Record report : Type := {
  timestamp : str;
  summary : stats;
  report_matches : list match_record;
  sample_unmatched_scripts : list str;
  sample_unmatched_films : list str
}.

(** [l[:n]] *)
Definition slice_to {A : Type} (n : nat) (l : list A) : list A := firstn n l.

(** [generate_report]: the object dumped to [cinema_matching_report.json]
    and the returned value.  [cwd] is [str(Path().absolute())]. *)
Definition generate_report (cwd : str) (r : results) : report * results :=
  ({| timestamp := cwd;
      summary := results_stats r;
      report_matches := slice_to 10 (matches r);
      sample_unmatched_scripts := slice_to 10 (unmatched_scripts r);
      sample_unmatched_films := slice_to 10 (unmatched_films r) |},
   r).

(** ** Classification of identifiers *)

(** In how many match records is [s] the script? *)
Definition times_matched (s : str) (r : results) : nat :=
  length (filter (fun m => str_eqb (script m) s) (matches r)).

(** [s] is the script of exactly one match record or is in
    [unmatched_scripts], and not both. *)
Definition script_classified (s : str) (r : results) : Prop :=
  (times_matched s r = 1 /\ ~ In s (unmatched_scripts r)) \/
  (times_matched s r = 0 /\ In s (unmatched_scripts r)).

(** [f] is the film of some match record or is in [unmatched_films], and
    not both. *)
Definition film_classified (f : str) (r : results) : Prop :=
  ((exists m, In m (matches r) /\ film m = f) /\ ~ In f (unmatched_films r))
  \/
  ((forall m, In m (matches r) -> film m <> f) /\ In f (unmatched_films r)).

(** ** The console examples *)

(** The match records [generate_report] prints a line for: none when there
    is no match, the first five otherwise. *)
Definition example_matches (r : results) : list match_record :=
  if truthy (matches r) then slice_to 5 (matches r) else [].

(** The elements of a list in the order of their first occurrence. *)
Definition first_occurrences (l : list str) : list str :=
  rev (nodup str_eq_dec (rev l)).

(** * Properties *)

(** ** Strings and dictionaries *)

Lemma str_eqb_eq (a b : str) : str_eqb a b = true <-> a = b.
Proof.
  revert b; induction a as [|x a IH]; intros [|y b]; simpl;
    try (split; (reflexivity || discriminate)).
  rewrite andb_true_iff, N.eqb_eq, IH.
  split; [intros [-> ->]; reflexivity | intros H; inversion H; auto].
Qed.

Lemma str_eqb_refl (a : str) : str_eqb a a = true.
Proof. apply str_eqb_eq; reflexivity. Qed.

Lemma str_eqb_neq (a b : str) : str_eqb a b = false <-> a <> b.
Proof.
  rewrite <- str_eqb_eq. destruct (str_eqb a b); split; congruence.
Qed.

Ltac case_str_eqb a b :=
  let E := fresh "E" in
  destruct (str_eqb a b) eqn:E;
  [apply str_eqb_eq in E | apply str_eqb_neq in E].

Section DictFacts.

Variable V : Type.
Implicit Types (d : dict V) (k : str) (v : V).

Lemma dict_contains_keys d k :
  dict_contains d k = true <-> In k (dict_keys d).
Proof.
  unfold dict_contains.
  induction d as [|[k' v'] r IH]; simpl.
  - split; [discriminate | tauto].
  - case_str_eqb k k'.
    + subst. split; auto.
    + rewrite IH. split; [auto | intros [H | H]; congruence].
Qed.

Lemma dict_contains_false d k :
  dict_contains d k = false <-> ~ In k (dict_keys d).
Proof.
  rewrite <- dict_contains_keys.
  destruct (dict_contains d k); split; congruence.
Qed.

Lemma dict_get_In d k v : dict_get d k = Some v -> In (k, v) d.
Proof.
  induction d as [|[k' v'] r IH]; simpl; [discriminate|].
  case_str_eqb k k'.
  - intros H; inversion H; subst; auto.
  - auto.
Qed.

Lemma dict_In_get d k v :
  NoDup (dict_keys d) -> In (k, v) d -> dict_get d k = Some v.
Proof.
  induction d as [|[k' v'] r IH]; simpl; [tauto|].
  intros Hnd [H | H].
  - inversion H; subst. now rewrite str_eqb_refl.
  - inversion Hnd as [|? ? Hk Hr]; subst.
    case_str_eqb k k'.
    + subst. exfalso. apply Hk.
      change k' with (fst (k', v)). now apply in_map.
    + auto.
Qed.

Lemma dict_get_setitem d k v k' :
  dict_get (dict_setitem d k v) k' =
  if str_eqb k' k then Some v else dict_get d k'.
Proof.
  induction d as [|[k0 v0] r IH]; simpl.
  - reflexivity.
  - case_str_eqb k k0; simpl.
    + subst. destruct (str_eqb k' k0); reflexivity.
    + case_str_eqb k' k0.
      * subst. case_str_eqb k0 k; [congruence | reflexivity].
      * apply IH.
Qed.

Lemma dict_keys_setitem d k v :
  dict_keys (dict_setitem d k v) =
  if dict_contains d k then dict_keys d else dict_keys d ++ [k].
Proof.
  unfold dict_contains.
  induction d as [|[k0 v0] r IH]; simpl.
  - reflexivity.
  - case_str_eqb k k0; simpl.
    + reflexivity.
    + rewrite IH. destruct (dict_get r k); reflexivity.
Qed.

Lemma dict_keys_length d : length (dict_keys d) = length d.
Proof. apply length_map. Qed.

End DictFacts.

(** The comprehension, one element at a time. *)
Lemma dict_comp_snoc (f : str -> str) (xs : list str) (x : str) :
  dict_comp f (xs ++ [x]) = dict_setitem (dict_comp f xs) (f x) x.
Proof. unfold dict_comp. now rewrite fold_left_app. Qed.

Lemma dict_comp_keys_NoDup (f : str -> str) (xs : list str) :
  NoDup (dict_keys (dict_comp f xs)).
Proof.
  induction xs as [|x xs IH] using rev_ind.
  - constructor.
  - rewrite dict_comp_snoc, dict_keys_setitem.
    destruct (dict_contains (dict_comp f xs) (f x)) eqn:E; [assumption|].
    apply dict_contains_false in E.
    apply NoDup_app; [assumption | repeat constructor; simpl; tauto |].
    intros k Hk [<- | []]. contradiction.
Qed.

Lemma dict_comp_keys_In (f : str -> str) (xs : list str) (k : str) :
  In k (dict_keys (dict_comp f xs)) <-> In k (map f xs).
Proof.
  revert k. induction xs as [|x xs IH] using rev_ind; intros k.
  - reflexivity.
  - rewrite dict_comp_snoc, dict_keys_setitem, map_app, in_app_iff; simpl.
    destruct (dict_contains (dict_comp f xs) (f x)) eqn:E.
    + apply dict_contains_keys, IH in E. rewrite IH.
      split; [tauto | intros [H | [<- | []]]; assumption].
    + rewrite in_app_iff, IH. simpl. tauto.
Qed.

(** Every item of the comprehension is an element of the list under its
    own key. *)
Lemma dict_comp_items (f : str -> str) (xs : list str) (k v : str) :
  In (k, v) (dict_comp f xs) -> k = f v /\ In v xs.
Proof.
  intros H.
  apply (dict_In_get _ _ _ (dict_comp_keys_NoDup f xs)) in H.
  revert H. induction xs as [|x xs IH] using rev_ind.
  - discriminate.
  - rewrite dict_comp_snoc, dict_get_setitem, in_app_iff. simpl.
    case_str_eqb k (f x).
    + intros H; inversion H; subst; auto.
    + intros H. destruct (IH H); auto.
Qed.

(** The last element of a list with a given key is what the comprehension
    maps the key to. *)
Lemma dict_comp_last (f : str -> str) (l1 l2 : list str) (x : str) :
  Forall (fun y => f y <> f x) l2 ->
  dict_get (dict_comp f (l1 ++ x :: l2)) (f x) = Some x.
Proof.
  induction l2 as [|y l2 IH] using rev_ind; intros Hl2.
  - rewrite dict_comp_snoc, dict_get_setitem, str_eqb_refl. reflexivity.
  - apply Forall_app in Hl2 as [Hl2 Hy]. inversion Hy; subst.
    change (l1 ++ x :: l2 ++ [y]) with (l1 ++ (x :: l2) ++ [y]).
    rewrite app_assoc, dict_comp_snoc, dict_get_setitem.
    case_str_eqb (f x) (f y); [congruence | auto].
Qed.

Lemma dict_comp_length (f : str -> str) (xs : list str) :
  length (dict_comp f xs) = length (nodup str_eq_dec (map f xs)).
Proof.
  rewrite <- dict_keys_length.
  apply Permutation_length, NoDup_Permutation.
  - apply dict_comp_keys_NoDup.
  - apply NoDup_nodup.
  - intros k. now rewrite dict_comp_keys_In, nodup_In.
Qed.

Lemma dict_comp_length_le (f : str -> str) (xs : list str) :
  length (dict_comp f xs) <= length xs.
Proof.
  induction xs as [|x xs IH] using rev_ind.
  - apply le_n.
  - rewrite dict_comp_snoc, <- dict_keys_length, dict_keys_setitem.
    rewrite length_app; simpl.
    destruct (dict_contains _ _); rewrite ?length_app, dict_keys_length;
      simpl; lia.
Qed.

(** ** The loops *)

Lemma scripts_loop_eq (fi : dict str) (items : list (str * str))
    (ms : list match_record) (us : list str) :
  scripts_loop fi items ms us =
  Ok (ms ++ matched_items fi items, us ++ missing_items fi items).
Proof.
  revert ms us. induction items as [|[k v] r IH]; intros ms us; simpl.
  - unfold matched_items, missing_items; simpl. now rewrite !app_nil_r.
  - unfold matched_items, missing_items, match_of, dict_contains,
      dict_getitem; simpl.
    destruct (dict_get fi k) as [f|]; simpl; rewrite IH.
    + now rewrite <- app_assoc.
    + unfold missing_items, dict_contains. now rewrite <- app_assoc.
Qed.

Lemma films_loop_eq (si : dict str) (items : list (str * str))
    (uf : list str) :
  films_loop si items uf = uf ++ missing_items si items.
Proof.
  revert uf. induction items as [|[k v] r IH]; intros uf; simpl.
  - unfold missing_items; simpl. now rewrite app_nil_r.
  - unfold missing_items; simpl.
    destruct (dict_contains si k); simpl; rewrite IH; unfold missing_items.
    + reflexivity.
    + now rewrite <- app_assoc.
Qed.

Lemma len_cons_nonzero {A : Type} (x : A) (l : list A) :
  (len (x :: l) =? 0)%Z = false.
Proof. apply Z.eqb_neq. unfold len. simpl length. lia. Qed.

(** The matcher raises nothing, and this is what it returns. *)
Lemma create_matching_index_eq (U : UnicodeData) (films scripts : list str) :
  create_matching_index U films scripts =
  let fi := film_index U films in
  let si := script_index U scripts in
  Ok {| matches := matched_items fi si;
        unmatched_scripts := missing_items fi si;
        unmatched_films := missing_items si fi;
        results_stats :=
          {| total_films := len films;
             total_scripts := len scripts;
             matches_found := len (matched_items fi si);
             match_percentage :=
               if truthy scripts
               then (inject_Z (len (matched_items fi si))
                     / inject_Z (len scripts) * 100)%Q
               else 0%Q;
             match_percentage_value :=
               if truthy scripts
               then Float (float_mul_int
                             (double_quotient (len (matched_items fi si))
                                (len scripts)) 100)
               else Int 0 |} |}.
Proof.
  unfold create_matching_index, dict_items.
  rewrite scripts_loop_eq, films_loop_eq. simpl.
  destruct scripts as [|s scripts]; [reflexivity|].
  unfold truthy, truediv, int_truediv. rewrite !len_cons_nonzero.
  reflexivity.
Qed.

Lemma matched_items_In (fi : dict str) (l : list (str * str))
    (m : match_record) :
  In m (matched_items fi l) <->
  exists k v f, In (k, v) l /\ dict_get fi k = Some f /\
                m = {| script := v; film := f; normalized := k |}.
Proof.
  unfold matched_items. rewrite in_flat_map. split.
  - intros ([k v] & Hin & Hm). unfold match_of in Hm; simpl in Hm.
    destruct (dict_get fi k) as [f|] eqn:E; [|contradiction].
    destruct Hm as [<- | []]. now exists k, v, f.
  - intros (k & v & f & Hin & Hf & ->). exists (k, v). split; [assumption|].
    unfold match_of; simpl. rewrite Hf. now left.
Qed.

Lemma missing_items_In (o : dict str) (l : list (str * str)) (x : str) :
  In x (missing_items o l) <->
  exists k, In (k, x) l /\ dict_contains o k = false.
Proof.
  unfold missing_items. rewrite in_map_iff. split.
  - intros ([k v] & <- & H). apply filter_In in H as [H1 H2]. simpl in *.
    exists k. split; [assumption|]. now apply negb_true_iff.
  - intros (k & H1 & H2). exists (k, x). split; [reflexivity|].
    apply filter_In. split; [assumption|]. simpl. now rewrite H2.
Qed.

Lemma matched_items_app (fi : dict str) (a b : list (str * str)) :
  matched_items fi (a ++ b) = matched_items fi a ++ matched_items fi b.
Proof. apply flat_map_app. Qed.

Lemma missing_items_app (o : dict str) (a b : list (str * str)) :
  missing_items o (a ++ b) = missing_items o a ++ missing_items o b.
Proof. unfold missing_items. now rewrite filter_app, map_app. Qed.

(** Every item goes to exactly one of the two lists of the first loop. *)
Lemma matched_missing_length (fi : dict str) (l : list (str * str)) :
  length (matched_items fi l) + length (missing_items fi l) = length l.
Proof.
  induction l as [|[k v] r IH]; [reflexivity|].
  change ((k, v) :: r) with ([(k, v)] ++ r).
  rewrite matched_items_app, missing_items_app, !length_app.
  unfold matched_items at 1, missing_items at 1, match_of, dict_contains.
  simpl. destruct (dict_get fi k); simpl; lia.
Qed.

Lemma matched_items_length (fi : dict str) (l : list (str * str)) :
  length (matched_items fi l) =
  length (filter (dict_contains fi) (dict_keys l)).
Proof.
  induction l as [|[k v] r IH]; [reflexivity|].
  unfold matched_items, match_of, dict_contains in *. simpl.
  destruct (dict_get fi k); simpl; now rewrite IH.
Qed.

Lemma missing_items_length (o : dict str) (l : list (str * str)) :
  length (missing_items o l) =
  length (filter (fun k => negb (dict_contains o k)) (dict_keys l)).
Proof.
  unfold missing_items. rewrite length_map.
  induction l as [|[k v] r IH]; [reflexivity|].
  simpl. destruct (dict_contains o k); simpl; now rewrite IH.
Qed.

Lemma filter_partition_length {A : Type} (p : A -> bool) (l : list A) :
  length (filter p l) + length (filter (fun x => negb (p x)) l) = length l.
Proof.
  induction l as [|x l IH]; [reflexivity|].
  simpl. destruct (p x); simpl; lia.
Qed.

(** Two dictionaries have as many keys of the first in the second as keys
    of the second in the first. *)
Lemma common_keys_length (a b : dict str) :
  NoDup (dict_keys a) -> NoDup (dict_keys b) ->
  length (filter (dict_contains b) (dict_keys a)) =
  length (filter (dict_contains a) (dict_keys b)).
Proof.
  intros Ha Hb.
  apply Permutation_length, NoDup_Permutation;
    try (apply NoDup_filter; assumption).
  intros k. rewrite !filter_In, !dict_contains_keys. tauto.
Qed.

Lemma filter_none {A : Type} (p : A -> bool) (l : list A) :
  (forall x, In x l -> p x = false) -> filter p l = [].
Proof.
  induction l as [|x l IH]; intros H; [reflexivity|].
  simpl. rewrite (H x (or_introl eq_refl)). apply IH.
  intros y Hy. apply H. now right.
Qed.

(** An identifier that the comprehension keeps is the script of one match
    record when its key is a film key, and of none otherwise. *)
Lemma kept_script_count (f : str -> str) (xs : list str) (fi : dict str)
    (s : str) :
  dict_get (dict_comp f xs) (f s) = Some s ->
  length (filter (fun m => str_eqb (script m) s)
            (matched_items fi (dict_comp f xs))) =
  if dict_contains fi (f s) then 1 else 0.
Proof.
  intros Hget.
  pose proof (dict_comp_keys_NoDup f xs) as Hnd.
  pose proof (dict_comp_items f xs) as Hit.
  apply dict_get_In, in_split in Hget as (a & b & Hab).
  rewrite Hab in *. clear Hab.
  assert (Hother : forall k v, In (k, v) (a ++ b) -> v <> s).
  { intros k v Hin ->.
    assert (k = f s) as ->.
    { apply (Hit k s). apply in_app_iff in Hin. apply in_app_iff.
      simpl. tauto. }
    unfold dict_keys in Hnd. rewrite map_app in Hnd. simpl in Hnd.
    apply NoDup_remove_2 in Hnd. apply Hnd.
    rewrite <- map_app. change (f s) with (fst (f s, s)). now apply in_map. }
  assert (Hnone : forall l, (forall k v, In (k, v) l -> v <> s) ->
            filter (fun m => str_eqb (script m) s) (matched_items fi l) = []).
  { intros l Hl. apply filter_none. intros m Hm.
    apply matched_items_In in Hm as (k & v & f0 & Hin & _ & ->). simpl.
    apply str_eqb_neq. eauto. }
  change ((f s, s) :: b) with ([(f s, s)] ++ b).
  rewrite !matched_items_app, !filter_app, !length_app.
  rewrite (Hnone a), (Hnone b); simpl.
  - unfold match_of, dict_contains. simpl.
    destruct (dict_get fi (f s)); simpl; [|reflexivity].
    now rewrite str_eqb_refl.
  - intros k v Hin. apply (Hother k v), in_app_iff. now right.
  - intros k v Hin. apply (Hother k v), in_app_iff. now left.
Qed.

(** The same identifier is unmatched exactly when its key is no film key. *)
Lemma kept_missing (f : str -> str) (xs : list str) (o : dict str)
    (x : str) :
  dict_get (dict_comp f xs) (f x) = Some x ->
  In x (missing_items o (dict_comp f xs)) <-> dict_contains o (f x) = false.
Proof.
  intros Hget. rewrite missing_items_In. split.
  - intros (k & Hin & Hk).
    now destruct (dict_comp_items f xs k x Hin) as [-> _].
  - intros Hk. exists (f x). split; [now apply dict_get_In | assumption].
Qed.

(** ** Runs

    The strings are ASCII, so the runs hold whatever the Unicode tables. *)

Example normalize_inception (U : UnicodeData) :
  normalize_title U (lit "Inception-2010") = lit "inception" /\
  normalize_title U (lit "Inception") = lit "inception".
Proof. split; reflexivity. Qed.

(** The year is removed before a final newline too, and only at the end. *)
Example normalize_year_newline (U : UnicodeData) :
  normalize_title U (lit "a-1234" ++ [newline]) = lit "a" /\
  normalize_title U (lit "-1234-1234") = lit "1234".
Proof. split; reflexivity. Qed.

(** The underscore is a word character; the separators 0x1c..0x1f are
    whitespace. *)
Example normalize_classes (U : UnicodeData) :
  normalize_title U (lit "A_b-c 12") = lit "a_bc 12" /\
  normalize_title U ([0x1f] ++ lit "ab" ++ [0x1c])%N = lit "ab".
Proof. split; reflexivity. Qed.

Example normalize_dotted_I :
  normalize_title ucd_fragment [0x130%N] = [0x69; 0x307]%N /\
  normalize_title ucd_fragment [0x69; 0x307]%N = [0x69%N].
Proof. split; reflexivity. Qed.

Example matcher_no_match (U : UnicodeData) :
  create_matching_index U [lit "Matrix-1999"] [lit "inception"] =
  Ok {| matches := [];
        unmatched_scripts := [lit "inception"];
        unmatched_films := [lit "Matrix-1999"];
        results_stats :=
          {| total_films := 1; total_scripts := 1; matches_found := 0;
             match_percentage := 0%Q;
             match_percentage_value := Float (S754_zero false) |} |}.
Proof. vm_compute. reflexivity. Qed.

(** Items come in the order of the first occurrence of their key, with the
    last identifier of the key.  The double is 33.33333333333333, not the
    double nearest to 100/3. *)
Example matcher_collision (U : UnicodeData) :
  create_matching_index U [lit "Matrix-1999"]
    [lit "inception"; lit "Inception"; lit "MATRIX"] =
  Ok {| matches := [{| script := lit "MATRIX";
                       film := lit "Matrix-1999";
                       normalized := lit "matrix" |}];
        unmatched_scripts := [lit "Inception"];
        unmatched_films := [];
        results_stats :=
          {| total_films := 1; total_scripts := 3; matches_found := 1;
             match_percentage := (100 # 3)%Q;
             match_percentage_value :=
               Float (S754_finite false 4691249611844266 (-47)) |} |}.
Proof. vm_compute. reflexivity. Qed.

(** ** Counting, keys and collisions *)

Section MatcherFacts.

Variable U : UnicodeData.

(** C2: for every film list and script list the matcher returns, and the
    number of match records plus the number of unmatched scripts is the
    size of the script lookup mapping, which is the number of distinct
    normalized script keys. *)
Theorem matches_plus_unmatched_scripts (films scripts : list str) :
  exists r,
    create_matching_index U films scripts = Ok r /\
    length (matches r) + length (unmatched_scripts r)
    = length (script_index U scripts) /\
    length (script_index U scripts)
    = length (nodup str_eq_dec (map (normalize_title U) scripts)).
Proof.
  rewrite create_matching_index_eq. eexists. split; [reflexivity|].
  simpl. split.
  - apply matched_missing_length.
  - apply dict_comp_length.
Qed.

(** C9: for every film list and script list the matcher returns, and the
    number of match records plus the number of unmatched films is the size
    of the film lookup mapping, which is the number of distinct normalized
    film keys. *)
Theorem matches_plus_unmatched_films (films scripts : list str) :
  exists r,
    create_matching_index U films scripts = Ok r /\
    length (matches r) + length (unmatched_films r)
    = length (film_index U films) /\
    length (film_index U films)
    = length (nodup str_eq_dec (map (normalize_title U) films)).
Proof.
  rewrite create_matching_index_eq. eexists. split; [reflexivity|].
  simpl. split.
  - rewrite matched_items_length, missing_items_length.
    rewrite common_keys_length by apply dict_comp_keys_NoDup.
    rewrite filter_partition_length. apply dict_keys_length.
  - apply dict_comp_length.
Qed.

(** C8: every match record the matcher emits has as [normalized] field the
    normalisation of its script and of its film; that key is in both
    lookup mappings, which map it to the record's film and script. *)
Theorem match_record_keys (films scripts : list str) :
  exists r,
    create_matching_index U films scripts = Ok r /\
    forall m, In m (matches r) ->
      normalized m = (normalize_title U) (script m) /\
      normalized m = (normalize_title U) (film m) /\
      dict_contains (film_index U films) (normalized m) = true /\
      dict_contains (script_index U scripts) (normalized m) = true /\
      dict_get (film_index U films) (normalized m) = Some (film m) /\
      dict_get (script_index U scripts) (normalized m) = Some (script m).
Proof.
  rewrite create_matching_index_eq. eexists. split; [reflexivity|].
  simpl. intros m Hm.
  apply matched_items_In in Hm as (k & v & f & Hin & Hf & ->). simpl.
  pose proof (dict_In_get _ _ _ (dict_comp_keys_NoDup (normalize_title U) scripts) Hin)
    as Hs.
  destruct (dict_comp_items _ _ _ _ Hin) as [Hk _].
  destruct (dict_comp_items _ _ _ _ (dict_get_In _ _ Hf)) as [Hk' _].
  unfold dict_contains, film_index, script_index in *.
  rewrite Hf, Hs. repeat split; assumption.
Qed.

(** C7: when two distinct identifiers of one list normalize to the same
    key and no identifier after the later one has that key, the lookup
    mapping of the list, for films and for scripts alike, maps the key to
    the later identifier and not to the earlier one. *)
Theorem last_identifier_wins (l1 l2 l3 : list str) (a b : str) :
  a <> b ->
  (normalize_title U) a = (normalize_title U) b ->
  Forall (fun y => (normalize_title U) y <> (normalize_title U) b) l3 ->
  let xs := l1 ++ a :: l2 ++ b :: l3 in
  dict_get (film_index U xs) ((normalize_title U) a) = Some b /\
  dict_get (script_index U xs) ((normalize_title U) a) = Some b /\
  dict_get (film_index U xs) ((normalize_title U) a) <> Some a.
Proof.
  intros Hab Hn Hl3 xs.
  assert (H : dict_get (dict_comp (normalize_title U) xs) ((normalize_title U) a) = Some b).
  { subst xs. rewrite Hn.
    change (l1 ++ a :: l2 ++ b :: l3) with (l1 ++ (a :: l2) ++ b :: l3).
    rewrite app_assoc. now apply dict_comp_last. }
  unfold film_index, script_index. rewrite H.
  repeat split; congruence.
Qed.

End MatcherFacts.

Lemma last_identifier_wins_witness :
  lit "Matrix" <> lit "matrix" /\
  normalize_title ucd_fragment (lit "Matrix")
  = normalize_title ucd_fragment (lit "matrix") /\
  dict_get (film_index ucd_fragment [lit "Matrix"; lit "matrix"])
    (normalize_title ucd_fragment (lit "Matrix")) = Some (lit "matrix").
Proof.
  assert (H1 : lit "Matrix" <> lit "matrix") by (vm_compute; discriminate).
  assert (H2 : normalize_title ucd_fragment (lit "Matrix")
               = normalize_title ucd_fragment (lit "matrix"))
    by (vm_compute; reflexivity).
  split; [exact H1 | split; [exact H2 |]].
  apply (@last_identifier_wins ucd_fragment [] [] []
           (lit "Matrix") (lit "matrix") H1 H2).
  constructor.
Defined.

Lemma match_record_keys_witness :
  let m := {| script := lit "matrix";
              film := lit "Matrix-1999";
              normalized := lit "matrix" |} in
  normalized m = normalize_title ucd_fragment (script m) /\
  normalized m = normalize_title ucd_fragment (film m).
Proof.
  destruct (match_record_keys ucd_fragment [lit "Matrix-1999"] [lit "matrix"])
    as (r & Hr & H).
  vm_compute in Hr. injection Hr as <-.
  intros m. destruct (H m) as (H1 & H2 & _).
  - left. reflexivity.
  - split; assumption.
Defined.

(** ** Statistics *)


Lemma matches_le_index (fi si : dict str) :
  length (matched_items fi si) <= length si.
Proof. pose proof (matched_missing_length fi si). lia. Qed.

(** C4: the matcher returns for every input and so raises no division
    error; for an empty script list the [match_percentage] it stores is
    the int 0, for a non-empty one it is the double that Python's
    [matches / total_scripts * 100] gives: the number of matches divided
    by the number of scripts, the division being defined, times 100. *)
Theorem match_percentage_safe (U : UnicodeData) (films scripts : list str) :
  exists r,
    create_matching_index U films scripts = Ok r /\
    (scripts = [] -> match_percentage_value (results_stats r) = Int 0) /\
    (scripts <> [] ->
       int_truediv (len (matches r)) (len scripts)
       = Ok (double_quotient (len (matches r)) (len scripts)) /\
       match_percentage_value (results_stats r)
       = Float (float_mul_int
                  (double_quotient (len (matches r)) (len scripts)) 100)).
Proof.
  rewrite create_matching_index_eq. eexists. split; [reflexivity|].
  simpl. split.
  - intros ->. reflexivity.
  - intros Hne. destruct scripts as [|s scripts]; [congruence|].
    unfold int_truediv. rewrite len_cons_nonzero. split; reflexivity.
Qed.

(** No script: the int 0.  One match for three scripts: the double
    33.33333333333333, which is 4691249611844266 / 2^47. *)
Lemma match_percentage_safe_witness :
  (exists r,
     create_matching_index ucd_fragment [lit "Matrix-1999"] [] = Ok r /\
     match_percentage_value (results_stats r) = Int 0) /\
  (exists r,
     create_matching_index ucd_fragment [lit "Matrix-1999"]
       [lit "inception"; lit "Inception"; lit "MATRIX"] = Ok r /\
     match_percentage_value (results_stats r)
     = Float (S754_finite false 4691249611844266 (-47))).
Proof.
  split.
  - destruct (match_percentage_safe ucd_fragment [lit "Matrix-1999"] [])
      as (r & Hr & H0 & _).
    exists r. split; [exact Hr | apply H0; reflexivity].
  - destruct (match_percentage_safe ucd_fragment [lit "Matrix-1999"]
                [lit "inception"; lit "Inception"; lit "MATRIX"])
      as (r & Hr & _ & H1).
    exists r. split; [exact Hr|].
    destruct H1 as [_ H1]; [discriminate|].
    rewrite H1. vm_compute in Hr. injection Hr as <-. reflexivity.
Defined.


(** ** The report *)

(** C5: whatever the results, the [matches], [sample_unmatched_scripts]
    and [sample_unmatched_films] arrays of the written report have at most
    10 entries each. *)
Theorem report_samples_at_most_10 (cwd : str) (r : results) :
  let rep := fst (generate_report cwd r) in
  length (report_matches rep) <= 10 /\
  length (sample_unmatched_scripts rep) <= 10 /\
  length (sample_unmatched_films rep) <= 10.
Proof.
  unfold generate_report, slice_to. cbv zeta. cbn [fst report_matches
    sample_unmatched_scripts sample_unmatched_films].
  repeat split; apply firstn_le_length.
Qed.

(** C6: on the films ["Matrix-1999"] and the scripts ["matrix"] the
    matcher returns one match record, of script "matrix", film
    "Matrix-1999" and normalized key "matrix", no unmatched script and no
    unmatched film. *)
Theorem matrix_scenario (U : UnicodeData) :
  exists r,
    create_matching_index U [lit "Matrix-1999"] [lit "matrix"] = Ok r /\
    matches r = [{| script := lit "matrix";
                    film := lit "Matrix-1999";
                    normalized := lit "matrix" |}] /\
    unmatched_scripts r = [] /\
    unmatched_films r = [].
Proof.
  eexists. split; [vm_compute; reflexivity|].
  repeat split.
Qed.

(** ** Classification *)

(** C1, as stated, fails: of two scripts with one normalized key, the
    earlier is overwritten in the lookup mapping; it is a script of the
    input, the script of no match record and not in [unmatched_scripts]. *)
Lemma overwritten_script_unclassified :
  exists r,
    create_matching_index ucd_fragment [lit "Matrix-1999"]
      [lit "Matrix"; lit "matrix"] = Ok r /\
    In (lit "Matrix") [lit "Matrix"; lit "matrix"] /\
    ~ script_classified (lit "Matrix") r.
Proof.
  eexists. split; [vm_compute; reflexivity|].
  split; [left; reflexivity|].
  intros [[H _] | [_ H]].
  - vm_compute in H. discriminate.
  - exact H.
Qed.

(** C1, amended: the matcher returns for every input; every script
    identifier that no later script of the list shares its normalized key
    with is the script of exactly one match record or is in
    [unmatched_scripts], and not both; every film identifier that no
    later film shares its key with is the film of some match record or is
    in [unmatched_films], and not both. *)
Theorem last_identifiers_classified (U : UnicodeData)
    (films scripts : list str) :
  exists r,
    create_matching_index U films scripts = Ok r /\
    (forall l1 s l2,
       scripts = l1 ++ s :: l2 ->
       Forall (fun y => normalize_title U y <> normalize_title U s) l2 ->
       script_classified s r) /\
    (forall l1 f l2,
       films = l1 ++ f :: l2 ->
       Forall (fun y => normalize_title U y <> normalize_title U f) l2 ->
       film_classified f r).
Proof.
  rewrite create_matching_index_eq. eexists. split; [reflexivity|].
  cbv zeta. split.
  - intros l1 s l2 -> Hl2.
    pose proof (dict_comp_last (normalize_title U) l1 s Hl2) as Hget.
    unfold script_classified, times_matched. simpl.
    unfold script_index. rewrite (@kept_script_count _ _ _ _ Hget).
    rewrite (@kept_missing _ _ _ _ Hget).
    destruct (dict_contains _ _); [left | right]; split;
      congruence || reflexivity.
  - intros l1 f l2 -> Hl2.
    pose proof (dict_comp_last (normalize_title U) l1 f Hl2) as Hget.
    unfold film_classified. simpl.
    unfold film_index at 2 4. rewrite (@kept_missing _ _ _ _ Hget).
    set (fi := film_index U (l1 ++ f :: l2)).
    set (si := script_index U scripts).
    destruct (dict_contains si (normalize_title U f)) eqn:E;
      [left | right]; (split; [| congruence]).
    + unfold dict_contains in E.
      destruct (dict_get si (normalize_title U f)) as [v|] eqn:Ev;
        [|discriminate].
      exists {| script := v; film := f; normalized := normalize_title U f |}.
      split; [|reflexivity].
      apply matched_items_In.
      exists (normalize_title U f), v, f.
      repeat split; [now apply dict_get_In | exact Hget].
    + intros m Hm Hf.
      apply matched_items_In in Hm as (k & v & f0 & Hin & Hf0 & ->).
      simpl in Hf. subst f0.
      destruct (dict_comp_items _ _ _ _ (dict_get_In _ _ Hf0)) as [-> _].
      apply dict_contains_false in E. apply E.
      change (normalize_title U f) with (fst (normalize_title U f, v)).
      now apply in_map.
Qed.

Lemma last_identifiers_classified_witness :
  exists r,
    create_matching_index ucd_fragment [lit "Matrix-1999"]
      [lit "Matrix"; lit "matrix"] = Ok r /\
    script_classified (lit "matrix") r /\
    film_classified (lit "Matrix-1999") r.
Proof.
  destruct (last_identifiers_classified ucd_fragment [lit "Matrix-1999"]
              [lit "Matrix"; lit "matrix"]) as (r & Hr & Hs & Hf).
  exists r. split; [exact Hr | split].
  - apply (Hs [lit "Matrix"] (lit "matrix") []); [reflexivity | constructor].
  - apply (Hf [] (lit "Matrix-1999") []); [reflexivity | constructor].
Defined.

(** ** Normalisation *)

Section NormalizerFacts.

Variable U : UnicodeData.

Local Open Scope N_scope.

(** Settle every comparison that the hypotheses decide. *)
Ltac decide_cmp :=
  repeat match goal with
    | |- context [(?a <=? ?b)] =>
        first [ replace (a <=? b) with true
                  by (symmetry; apply N.leb_le; lia)
              | replace (a <=? b) with false
                  by (symmetry; apply N.leb_gt; lia) ]
    | |- context [(?a <? ?b)] =>
        first [ replace (a <? b) with true
                  by (symmetry; apply N.ltb_lt; lia)
              | replace (a <? b) with false
                  by (symmetry; apply N.ltb_ge; lia) ]
    | |- context [(?a =? ?b)] =>
        first [ replace (a =? b) with true
                  by (symmetry; apply N.eqb_eq; lia)
              | replace (a =? b) with false
                  by (symmetry; apply N.eqb_neq; lia) ]
    end.

Lemma ascii_isupper_range (c : char) :
  ascii_isupper c = true <-> 65 <= c <= 90.
Proof.
  unfold ascii_isupper. rewrite andb_true_iff, !N.leb_le. tauto.
Qed.

Lemma ascii_lower_ascii (c : char) :
  is_ascii c = true -> is_ascii (ascii_lower c) = true.
Proof.
  intros Ha. unfold ascii_lower.
  destruct (ascii_isupper c) eqn:E; [|exact Ha].
  apply ascii_isupper_range in E. unfold is_ascii. apply N.ltb_lt. lia.
Qed.

Lemma ascii_lower_idem (c : char) :
  ascii_lower (ascii_lower c) = ascii_lower c.
Proof.
  unfold ascii_lower at 2 3.
  destruct (ascii_isupper c) eqn:E.
  - apply ascii_isupper_range in E.
    unfold ascii_lower, ascii_isupper. now decide_cmp.
  - unfold ascii_lower. now rewrite E.
Qed.

Lemma ascii_lower_class (c : char) :
  is_ascii c = true ->
  re_word U (ascii_lower c) || re_space U (ascii_lower c)
  = re_word U c || re_space U c.
Proof.
  intros Ha. unfold ascii_lower.
  destruct (ascii_isupper c) eqn:E; [|reflexivity].
  apply ascii_isupper_range in E.
  unfold re_word, re_space, is_ascii, ascii_isalnum, ascii_isdigit,
    ascii_isupper, ascii_islower, ascii_isspace, underscore.
  now decide_cmp.
Qed.

Lemma hyphen_special : re_word U hyphen || re_space U hyphen = false.
Proof. reflexivity. Qed.

Lemma year_here_hyphen (c : char) (t : str) :
  year_here U (c :: t) = true -> c = hyphen.
Proof.
  destruct t as [|d1 [|d2 [|d3 [|d4 rest]]]]; simpl; try discriminate.
  rewrite !andb_true_iff. intros [[[[[H _] _] _] _] _].
  now apply N.eqb_eq.
Qed.

Lemma sub_year_no_hyphen (s : str) :
  ~ In hyphen s -> sub_year U s = s.
Proof.
  induction s as [|c t IH]; intros Hn; [reflexivity|].
  change (sub_year U (c :: t))
    with (if year_here U (c :: t) then skipn 4 t else c :: sub_year U t).
  destruct (year_here U (c :: t)) eqn:E.
  - apply year_here_hyphen in E. subst. exfalso. apply Hn. now left.
  - rewrite IH; [reflexivity|]. intros H. apply Hn. now right.
Qed.

Lemma skipn_In {A : Type} (n : nat) (l : list A) (x : A) :
  In x (skipn n l) -> In x l.
Proof.
  revert l. induction n as [|n IH]; intros [|y l]; simpl; auto.
Qed.

Lemma sub_year_In (s : str) (c : char) : In c (sub_year U s) -> In c s.
Proof.
  induction s as [|d t IH]; [auto|].
  change (sub_year U (d :: t))
    with (if year_here U (d :: t) then skipn 4 t else d :: sub_year U t).
  destruct (year_here U (d :: t)).
  - intros H. right. now apply skipn_In in H.
  - intros [H | H]; [now left | right; auto].
Qed.

Lemma filter_all {A : Type} (p : A -> bool) (l : list A) :
  Forall (fun x => p x = true) l -> filter p l = l.
Proof.
  induction 1 as [|x l Hx _ IH]; [reflexivity|].
  simpl. now rewrite Hx, IH.
Qed.

Lemma map_fixed {A : Type} (g : A -> A) (l : list A) :
  Forall (fun x => g x = x) l -> map g l = l.
Proof.
  induction 1 as [|x l Hx _ IH]; [reflexivity|].
  simpl. now rewrite Hx, IH.
Qed.

Lemma lstrip_In (s : str) (c : char) : In c (lstrip U s) -> In c s.
Proof.
  induction s as [|d t IH]; [auto|]. simpl.
  destruct (re_space U d); [right; auto | auto].
Qed.

Lemma rstrip_In (s : str) (c : char) : In c (rstrip U s) -> In c s.
Proof.
  induction s as [|d t IH]; [auto|]. simpl.
  destruct (rstrip U t) as [|e t'].
  - destruct (re_space U d); [intros [] | intros [H | []]; now left].
  - intros [H | H]; [now left | right; auto].
Qed.

Lemma str_strip_In (s : str) (c : char) : In c (str_strip U s) -> In c s.
Proof. intros H. now apply lstrip_In, rstrip_In. Qed.

Lemma lstrip_head (s : str) :
  match lstrip U s with
  | [] => True
  | c :: _ => re_space U c = false
  end.
Proof.
  induction s as [|d t IH]; [exact I|]. simpl.
  destruct (re_space U d) eqn:E; [exact IH | exact E].
Qed.

Lemma rstrip_cons (c : char) (t : str) :
  re_space U c = false -> rstrip U (c :: t) = c :: rstrip U t.
Proof. intros H. simpl. rewrite H. now destruct (rstrip U t). Qed.

Lemma rstrip_idem (s : str) : rstrip U (rstrip U s) = rstrip U s.
Proof.
  induction s as [|c t IH]; [reflexivity|]. simpl.
  destruct (rstrip U t) as [|e t'] eqn:E.
  - destruct (re_space U c) eqn:Ec; [reflexivity|]. simpl. now rewrite Ec.
  - change (rstrip U (c :: e :: t'))
      with (match rstrip U (e :: t') with
            | [] => if re_space U c then [] else [c]
            | t'' => c :: t''
            end).
    now rewrite IH.
Qed.

Lemma str_strip_idem (s : str) :
  str_strip U (str_strip U s) = str_strip U s.
Proof.
  unfold str_strip.
  pose proof (lstrip_head s) as Hh.
  destruct (lstrip U s) as [|c t]; [reflexivity|].
  rewrite (@rstrip_cons c t Hh). simpl lstrip. rewrite Hh.
  rewrite <- (@rstrip_cons c t Hh). apply rstrip_idem.
Qed.

(** A key of word and whitespace characters that lowercasing and
    stripping leave unchanged is its own normalisation. *)
Lemma normalize_title_fixed (t : str) :
  Forall (fun c => re_word U c || re_space U c = true) t ->
  str_lower U t = t ->
  str_strip U t = t ->
  normalize_title U t = t.
Proof.
  intros Hws Hlow Hstrip. unfold normalize_title.
  rewrite sub_year_no_hyphen.
  - unfold sub_special. rewrite (filter_all _ Hws). now rewrite Hlow.
  - intros Hin. rewrite Forall_forall in Hws. apply Hws in Hin.
    rewrite hyphen_special in Hin. discriminate.
Qed.

(** C3, as stated, fails: U+0130 is a word character whose lowercase is
    "i" followed by U+0307, which is no word character and is removed by
    a second normalisation. *)
Lemma normalize_title_not_idempotent :
  normalize_title ucd_fragment (normalize_title ucd_fragment [0x130])
  <> normalize_title ucd_fragment [0x130].
Proof. vm_compute. discriminate. Qed.

Lemma normalize_title_stripped (s : str) :
  str_strip U (normalize_title U s) = normalize_title U s.
Proof. unfold normalize_title. apply str_strip_idem. Qed.

(** The key of an ASCII string has only word and whitespace characters and
    is in lower case. *)
Lemma ascii_key (s : str) :
  forallb is_ascii s = true ->
  forallb (fun c => re_word U c || re_space U c) (normalize_title U s)
  = true /\
  str_lower U (normalize_title U s) = normalize_title U s.
Proof.
  intros Hs. rewrite forallb_forall in Hs.
  set (x := sub_special U (sub_year U s)).
  assert (Hx : forall c, In c x ->
            is_ascii c = true /\ re_word U c || re_space U c = true).
  { intros c Hc. apply filter_In in Hc as [Hc Hp].
    split; [apply Hs; now apply sub_year_In | exact Hp]. }
  assert (Hax : forallb is_ascii x = true).
  { apply forallb_forall. intros c Hc. now apply Hx. }
  assert (Hn : normalize_title U s = str_strip U (map ascii_lower x)).
  { unfold normalize_title, str_lower. fold x. now rewrite Hax. }
  assert (Hk : forall c, In c (normalize_title U s) ->
            is_ascii c = true /\ re_word U c || re_space U c = true /\
            ascii_lower c = c).
  { intros c Hc. rewrite Hn in Hc. apply str_strip_In, in_map_iff in Hc.
    destruct Hc as (d & <- & Hd). destruct (Hx d Hd) as [Ha Hw].
    repeat split.
    - now apply ascii_lower_ascii.
    - now rewrite ascii_lower_class.
    - apply ascii_lower_idem. }
  split.
  - apply forallb_forall. intros c Hc. now apply Hk.
  - unfold str_lower.
    replace (forallb is_ascii (normalize_title U s)) with true.
    + apply map_fixed, Forall_forall. intros c Hc. now apply Hk.
    + symmetry. apply forallb_forall. intros c Hc. now apply Hk.
Qed.

(** C3, amended: normalizing the key of [s] again returns the key when
    [s] is made of ASCII characters and, more generally, when the key has
    only word and whitespace characters and is unchanged by [lower()]. *)
Theorem normalize_title_idempotent_on (s : str) :
  forallb is_ascii s = true \/
  (forallb (fun c => re_word U c || re_space U c) (normalize_title U s)
   = true /\
   str_lower U (normalize_title U s) = normalize_title U s) ->
  normalize_title U (normalize_title U s) = normalize_title U s.
Proof.
  intros H.
  assert (Hkey : forallb (fun c => re_word U c || re_space U c)
                   (normalize_title U s) = true /\
                 str_lower U (normalize_title U s) = normalize_title U s).
  { destruct H as [H | H]; [now apply ascii_key | exact H]. }
  destruct Hkey as [Hws Hlow].
  apply normalize_title_fixed.
  - apply Forall_forall. now apply forallb_forall.
  - exact Hlow.
  - apply normalize_title_stripped.
Qed.

End NormalizerFacts.

(** "Matrix-1999" is ASCII; "\u00c9t\u00e9-2010" is not, and its key
    "\u00e9t\u00e9" is in lower case and made of letters. *)
Lemma normalize_title_idempotent_on_witness :
  normalize_title ucd_fragment
    (normalize_title ucd_fragment (lit "Matrix-1999"))
  = normalize_title ucd_fragment (lit "Matrix-1999") /\
  normalize_title ucd_fragment
    (normalize_title ucd_fragment ([0xC9; 0x74; 0xE9]%N ++ lit "-2010"))
  = [0xE9; 0x74; 0xE9]%N.
Proof.
  split.
  - apply (@normalize_title_idempotent_on ucd_fragment (lit "Matrix-1999")).
    left. reflexivity.
  - apply (@normalize_title_idempotent_on ucd_fragment
             ([0xC9; 0x74; 0xE9]%N ++ lit "-2010")).
    right. split; reflexivity.
Defined.

(** * Further properties *)

(** ** The matcher's output *)

Section MatcherOutput.

Variable U : UnicodeData.

Lemma film_index_get_In (films : list str) (k f : str) :
  dict_get (film_index U films) k = Some f ->
  k = normalize_title U f /\ In f films.
Proof. intros H. apply dict_get_In in H. now apply dict_comp_items in H. Qed.

Lemma index_contains (xs : list str) (k : str) :
  dict_contains (dict_comp (normalize_title U) xs) k = true <->
  In k (map (normalize_title U) xs).
Proof. now rewrite dict_contains_keys, dict_comp_keys_In. Qed.

(** X1: every match record pairs a script of the input with a film of the
    input. *)
Theorem matches_pair_inputs (films scripts : list str) :
  exists r,
    create_matching_index U films scripts = Ok r /\
    forall m, In m (matches r) ->
      In (script m) scripts /\ In (film m) films.
Proof.
  rewrite create_matching_index_eq. eexists. split; [reflexivity|].
  simpl. intros m Hm.
  apply matched_items_In in Hm as (k & v & f & Hin & Hf & ->). simpl.
  split.
  - now apply dict_comp_items in Hin.
  - now apply film_index_get_In in Hf.
Qed.

(** X2: a script and a film of the input with the same normalized key
    give a match record of that key. *)
Theorem common_key_matched (films scripts : list str) :
  exists r,
    create_matching_index U films scripts = Ok r /\
    forall s f, In s scripts -> In f films ->
      normalize_title U s = normalize_title U f ->
      exists m, In m (matches r) /\ normalized m = normalize_title U s.
Proof.
  rewrite create_matching_index_eq. eexists. split; [reflexivity|].
  simpl. intros s f Hs Hf Hk.
  assert (H1 : In (normalize_title U s) (dict_keys (script_index U scripts))).
  { apply dict_comp_keys_In. now apply in_map. }
  apply in_map_iff in H1 as ([k v] & Hkv & Hin). simpl in Hkv. subst k.
  assert (H2 : dict_contains (film_index U films) (normalize_title U s)
               = true).
  { apply index_contains. rewrite Hk. now apply in_map. }
  unfold dict_contains in H2.
  destruct (dict_get (film_index U films) (normalize_title U s)) as [f0|]
    eqn:E; [|discriminate].
  exists {| script := v; film := f0; normalized := normalize_title U s |}.
  split; [|reflexivity].
  apply matched_items_In. now exists (normalize_title U s), v, f0.
Qed.

(** X3: the unmatched scripts are exactly the scripts that the script
    mapping holds under their key and whose key is the key of no film. *)
Theorem unmatched_scripts_exactly (films scripts : list str) :
  exists r,
    create_matching_index U films scripts = Ok r /\
    forall s,
      In s (unmatched_scripts r) <->
      dict_get (script_index U scripts) (normalize_title U s) = Some s /\
      ~ In (normalize_title U s) (map (normalize_title U) films).
Proof.
  rewrite create_matching_index_eq. eexists. split; [reflexivity|].
  simpl. intros s. unfold film_index. rewrite <- index_contains. split.
  - intros H. pose proof H as H'.
    apply missing_items_In in H' as (k & Hin & Hk).
    pose proof (dict_comp_items _ _ _ _ Hin) as [-> _].
    split.
    + apply dict_In_get; [apply dict_comp_keys_NoDup | exact Hin].
    + now rewrite Hk.
  - intros [Hget Hk]. apply (@kept_missing _ _ _ _ Hget).
    now destruct (dict_contains _ _).
Qed.

(** X4: the unmatched films are exactly the films that the film mapping
    holds under their key and whose key is the key of no script. *)
Theorem unmatched_films_exactly (films scripts : list str) :
  exists r,
    create_matching_index U films scripts = Ok r /\
    forall f,
      In f (unmatched_films r) <->
      dict_get (film_index U films) (normalize_title U f) = Some f /\
      ~ In (normalize_title U f) (map (normalize_title U) scripts).
Proof.
  rewrite create_matching_index_eq. eexists. split; [reflexivity|].
  simpl. intros f. unfold script_index. rewrite <- index_contains. split.
  - intros H. pose proof H as H'.
    apply missing_items_In in H' as (k & Hin & Hk).
    pose proof (dict_comp_items _ _ _ _ Hin) as [-> _].
    split.
    + apply dict_In_get; [apply dict_comp_keys_NoDup | exact Hin].
    + now rewrite Hk.
  - intros [Hget Hk]. apply (@kept_missing _ _ _ _ Hget).
    now destruct (dict_contains _ _).
Qed.

End MatcherOutput.

Lemma matches_pair_inputs_witness :
  In (lit "matrix") [lit "matrix"; lit "inception"] /\
  In (lit "Matrix-1999") [lit "Matrix-1999"].
Proof.
  destruct (matches_pair_inputs ucd_fragment [lit "Matrix-1999"]
              [lit "matrix"; lit "inception"]) as (r & Hr & H).
  vm_compute in Hr. injection Hr as <-.
  apply (H {| script := lit "matrix";
              film := lit "Matrix-1999";
              normalized := lit "matrix" |}).
  left. reflexivity.
Defined.

Lemma common_key_matched_witness :
  exists r,
    create_matching_index ucd_fragment [lit "Matrix-1999"]
      [lit "inception"; lit "MATRIX"] = Ok r /\
    exists m, In m (matches r) /\ normalized m = lit "matrix".
Proof.
  destruct (common_key_matched ucd_fragment [lit "Matrix-1999"]
              [lit "inception"; lit "MATRIX"]) as (r & Hr & H).
  exists r. split; [exact Hr|].
  apply (H (lit "MATRIX") (lit "Matrix-1999")).
  - right. left. reflexivity.
  - left. reflexivity.
  - reflexivity.
Defined.

Lemma unmatched_scripts_exactly_witness :
  exists r,
    create_matching_index ucd_fragment [lit "Matrix-1999"]
      [lit "inception"; lit "MATRIX"] = Ok r /\
    In (lit "inception") (unmatched_scripts r).
Proof.
  destruct (unmatched_scripts_exactly ucd_fragment [lit "Matrix-1999"]
              [lit "inception"; lit "MATRIX"]) as (r & Hr & H).
  exists r. split; [exact Hr|].
  apply (H (lit "inception")). split.
  - reflexivity.
  - vm_compute. intros [E | []]. discriminate E.
Defined.

Lemma unmatched_films_exactly_witness :
  exists r,
    create_matching_index ucd_fragment [lit "Matrix-1999"; lit "Heat-1995"]
      [lit "inception"; lit "MATRIX"] = Ok r /\
    In (lit "Heat-1995") (unmatched_films r).
Proof.
  destruct (unmatched_films_exactly ucd_fragment
              [lit "Matrix-1999"; lit "Heat-1995"]
              [lit "inception"; lit "MATRIX"]) as (r & Hr & H).
  exists r. split; [exact Hr|].
  apply (H (lit "Heat-1995")). split.
  - reflexivity.
  - vm_compute. intros [E | [E | []]]; discriminate E.
Defined.

Section MatcherShape.

Variable U : UnicodeData.

Lemma matched_items_normalized (fi : dict str) (l : list (str * str)) :
  map normalized (matched_items fi l)
  = filter (dict_contains fi) (dict_keys l).
Proof.
  induction l as [|[k v] r IH]; [reflexivity|].
  unfold matched_items, match_of, dict_contains in *. simpl.
  destruct (dict_get fi k); simpl; now rewrite IH.
Qed.

Lemma filter_keys_NoDup (p : str * str -> bool) (l : list (str * str)) :
  NoDup (dict_keys l) -> NoDup (dict_keys (filter p l)).
Proof.
  unfold dict_keys. induction l as [|[k v] r IH]; intros Hnd; [constructor|].
  inversion Hnd as [|? ? Hk Hr]; subst. simpl.
  destruct (p (k, v)); simpl; [|auto].
  constructor; [|auto].
  intros Hin. apply Hk. apply in_map_iff in Hin as (kv & <- & Hkv).
  apply filter_In in Hkv as [Hkv _]. now apply in_map.
Qed.

(** The values of distinct keys of a comprehension are distinct. *)
Lemma missing_items_NoDup (o : dict str) (xs : list str) :
  NoDup (missing_items o (dict_comp (normalize_title U) xs)).
Proof.
  unfold missing_items.
  set (l := filter _ _).
  apply (NoDup_map_inv (normalize_title U)).
  replace (map (normalize_title U) (map snd l)) with (dict_keys l).
  - apply filter_keys_NoDup, dict_comp_keys_NoDup.
  - unfold dict_keys. rewrite map_map. apply map_ext_in.
    intros [k v] Hin. apply filter_In in Hin as [Hin _].
    now apply dict_comp_items in Hin.
Qed.

Lemma matched_items_keys (films scripts : list str) (m : match_record) :
  In m (matched_items (film_index U films) (script_index U scripts)) ->
  normalized m = normalize_title U (script m) /\
  normalized m = normalize_title U (film m).
Proof.
  intros Hm.
  apply matched_items_In in Hm as (k & v & f & Hin & Hf & ->). simpl.
  apply dict_comp_items in Hin. apply dict_get_In, dict_comp_items in Hf.
  now destruct Hin, Hf.
Qed.

(** X5: no normalized key, no script and no film occurs in two match
    records, and no identifier occurs twice among the unmatched scripts or
    among the unmatched films. *)
Theorem outputs_without_duplicates (films scripts : list str) :
  exists r,
    create_matching_index U films scripts = Ok r /\
    NoDup (map normalized (matches r)) /\
    NoDup (map script (matches r)) /\
    NoDup (map film (matches r)) /\
    NoDup (unmatched_scripts r) /\
    NoDup (unmatched_films r).
Proof.
  rewrite create_matching_index_eq. eexists. split; [reflexivity|].
  simpl.
  assert (Hn : NoDup (map normalized
                        (matched_items (film_index U films)
                           (script_index U scripts)))).
  { rewrite matched_items_normalized.
    apply NoDup_filter, dict_comp_keys_NoDup. }
  split; [exact Hn|].
  split; [|split; [|split]].
  - apply (NoDup_map_inv (normalize_title U)).
    rewrite map_map.
    erewrite map_ext_in; [exact Hn|].
    intros m Hm. simpl. symmetry. now apply (matched_items_keys _ _ _ Hm).
  - apply (NoDup_map_inv (normalize_title U)).
    rewrite map_map.
    erewrite map_ext_in; [exact Hn|].
    intros m Hm. simpl. symmetry. now apply (matched_items_keys _ _ _ Hm).
  - apply missing_items_NoDup.
  - apply missing_items_NoDup.
Qed.

(** X6: no identifier is both the script of a match record and an
    unmatched script, and none is both the film of a match record and an
    unmatched film. *)
Theorem matched_and_unmatched_disjoint (films scripts : list str) :
  exists r,
    create_matching_index U films scripts = Ok r /\
    (forall s, In s (map script (matches r)) ->
               ~ In s (unmatched_scripts r)) /\
    (forall f, In f (map film (matches r)) ->
               ~ In f (unmatched_films r)).
Proof.
  rewrite create_matching_index_eq. eexists. split; [reflexivity|].
  simpl. split.
  - intros s Hs Hu.
    apply in_map_iff in Hs as (m & <- & Hm).
    destruct (matched_items_keys _ _ _ Hm) as [Hk _].
    apply matched_items_In in Hm as (k & v & f & Hin & Hf & ->).
    simpl in *. subst k.
    apply missing_items_In in Hu as (k' & Hin' & Hk').
    apply dict_comp_items in Hin' as [-> _].
    unfold dict_contains in Hk'. now rewrite Hf in Hk'.
  - intros f Hf Hu.
    apply in_map_iff in Hf as (m & <- & Hm).
    destruct (matched_items_keys _ _ _ Hm) as [_ Hk].
    apply matched_items_In in Hm as (k & v & f & Hin & Hf & ->).
    simpl in *. subst k.
    apply missing_items_In in Hu as (k' & Hin' & Hk').
    apply dict_comp_items in Hin' as [-> _].
    apply dict_contains_false in Hk'. apply Hk'.
    change (normalize_title U f) with (fst (normalize_title U f, v)).
    now apply in_map.
Qed.

(** X7: [matches_found] is the number of match records and exceeds
    neither [total_films] nor [total_scripts]. *)
Theorem matches_found_bounds (films scripts : list str) :
  exists r,
    create_matching_index U films scripts = Ok r /\
    matches_found (results_stats r) = len (matches r) /\
    (matches_found (results_stats r) <= total_films (results_stats r))%Z /\
    (matches_found (results_stats r) <= total_scripts (results_stats r))%Z.
Proof.
  rewrite create_matching_index_eq. eexists. split; [reflexivity|].
  simpl. split; [reflexivity|].
  pose proof (matches_le_index (film_index U films) (script_index U scripts))
    as H1.
  pose proof (dict_comp_length_le (normalize_title U) scripts) as H2.
  pose proof (dict_comp_length_le (normalize_title U) films) as H3.
  assert (H4 : length (matched_items (film_index U films)
                         (script_index U scripts))
               <= length (film_index U films)).
  { rewrite matched_items_length, common_keys_length
      by apply dict_comp_keys_NoDup.
    rewrite <- (dict_keys_length (film_index U films)).
    apply filter_length_le. }
  unfold film_index, script_index, len in *. lia.
Qed.

(** X8: swapping the roles of the two lists leaves the number of match
    records unchanged. *)
Theorem matches_count_symmetric (xs ys : list str) :
  exists r r',
    create_matching_index U xs ys = Ok r /\
    create_matching_index U ys xs = Ok r' /\
    length (matches r) = length (matches r').
Proof.
  rewrite !create_matching_index_eq. do 2 eexists.
  split; [reflexivity | split; [reflexivity|]].
  simpl. rewrite !matched_items_length.
  apply common_keys_length; apply dict_comp_keys_NoDup.
Qed.

End MatcherShape.

Lemma matched_and_unmatched_disjoint_witness :
  exists r,
    create_matching_index ucd_fragment [lit "Matrix-1999"]
      [lit "inception"; lit "MATRIX"] = Ok r /\
    ~ In (lit "MATRIX") (unmatched_scripts r) /\
    ~ In (lit "Matrix-1999") (unmatched_films r).
Proof.
  destruct (matched_and_unmatched_disjoint ucd_fragment [lit "Matrix-1999"]
              [lit "inception"; lit "MATRIX"]) as (r & Hr & Hs & Hf).
  exists r. split; [exact Hr|].
  vm_compute in Hr. injection Hr as <-.
  split; [apply Hs | apply Hf]; left; reflexivity.
Defined.

Section MatcherStatistics.

Variable U : UnicodeData.








End MatcherStatistics.


(** ** Order of the output *)

Lemma dict_comp_keys_order (f : str -> str) (xs : list str) :
  dict_keys (dict_comp f xs) = first_occurrences (map f xs).
Proof.
  unfold first_occurrences.
  induction xs as [|x xs IH] using rev_ind; [reflexivity|].
  rewrite dict_comp_snoc, dict_keys_setitem, map_app, rev_app_distr.
  simpl rev at 1. simpl app. simpl nodup.
  destruct (in_dec str_eq_dec (f x) (rev (map f xs))) as [Hin | Hnin];
    destruct (dict_contains (dict_comp f xs) (f x)) eqn:E.
  - exact IH.
  - exfalso. apply dict_contains_false in E. apply E.
    apply dict_comp_keys_In. now apply in_rev.
  - exfalso. apply Hnin. apply dict_contains_keys, dict_comp_keys_In in E.
    now apply in_rev in E.
  - simpl. now rewrite IH.
Qed.

Lemma filter_keys (p : str -> bool) (l : list (str * str)) :
  dict_keys (filter (fun kv => p (fst kv)) l) = filter p (dict_keys l).
Proof.
  unfold dict_keys. induction l as [|[k v] l IH]; [reflexivity|].
  simpl. destruct (p k); simpl; now rewrite IH.
Qed.

Lemma missing_items_keys (f : str -> str) (o : dict str) (xs : list str) :
  map f (missing_items o (dict_comp f xs))
  = filter (fun k => negb (dict_contains o k)) (dict_keys (dict_comp f xs)).
Proof.
  rewrite <- filter_keys. unfold missing_items, dict_keys.
  rewrite map_map. apply map_ext_in.
  intros [k v] Hin. apply filter_In in Hin as [Hin _].
  apply dict_comp_items in Hin. simpl. now destruct Hin.
Qed.

(** X12: the match records and the unmatched scripts come in the order in
    which their normalized keys first occur in the script list, and the
    unmatched films in the order in which their keys first occur in the
    film list. *)
Theorem output_in_first_occurrence_order (U : UnicodeData)
    (films scripts : list str) :
  exists r,
    create_matching_index U films scripts = Ok r /\
    map normalized (matches r)
    = filter (dict_contains (film_index U films))
        (first_occurrences (map (normalize_title U) scripts)) /\
    map (normalize_title U) (unmatched_scripts r)
    = filter (fun k => negb (dict_contains (film_index U films) k))
        (first_occurrences (map (normalize_title U) scripts)) /\
    map (normalize_title U) (unmatched_films r)
    = filter (fun k => negb (dict_contains (script_index U scripts) k))
        (first_occurrences (map (normalize_title U) films)).
Proof.
  rewrite create_matching_index_eq. eexists. split; [reflexivity|].
  simpl. rewrite matched_items_normalized.
  unfold script_index at 1 2, film_index at 3 5.
  rewrite !missing_items_keys, !dict_comp_keys_order. repeat split.
Qed.

(** ** The first loop on any dictionary *)

(** X13: whatever the film dictionary, the items and the lists so far, the
    first loop raises no exception, keeps what the two lists held, and
    adds one entry to exactly one of them for each item. *)
Theorem scripts_loop_never_raises (fi : dict str) (items : list (str * str))
    (ms : list match_record) (us : list str) :
  exists ms' us',
    scripts_loop fi items ms us = Ok (ms ++ ms', us ++ us') /\
    length ms' + length us' = length items.
Proof.
  rewrite scripts_loop_eq. do 2 eexists. split; [reflexivity|].
  apply matched_missing_length.
Qed.

(** ** The report *)

(** X14: each array of the report is the list of the results cut after
    its first 10 entries: it has [min 10 n] entries and what was cut
    follows it in the results. *)
Theorem report_samples_are_prefixes (cwd : str) (r : results) :
  let rep := fst (generate_report cwd r) in
  length (report_matches rep) = Nat.min 10 (length (matches r)) /\
  length (sample_unmatched_scripts rep)
  = Nat.min 10 (length (unmatched_scripts r)) /\
  length (sample_unmatched_films rep)
  = Nat.min 10 (length (unmatched_films r)) /\
  matches r = report_matches rep ++ skipn 10 (matches r) /\
  unmatched_scripts r
  = sample_unmatched_scripts rep ++ skipn 10 (unmatched_scripts r) /\
  unmatched_films r
  = sample_unmatched_films rep ++ skipn 10 (unmatched_films r).
Proof.
  unfold generate_report, slice_to. cbv zeta. cbn [fst report_matches
    sample_unmatched_scripts sample_unmatched_films].
  rewrite !length_firstn, !firstn_skipn. repeat split.
Qed.

Lemma firstn_incl {A : Type} (n : nat) (l : list A) (x : A) :
  In x (firstn n l) -> In x l.
Proof.
  intros H. rewrite <- (firstn_skipn n l). apply in_or_app. now left.
Qed.

(** X15: the report object built from the results of the matcher has
    the working directory as timestamp and the statistics of the matcher
    as summary, shows [min 10 n] of the [n] matches that [matches_found]
    counts, and every record it shows pairs a script and a film of one
    normalized key. *)
Theorem matcher_report (U : UnicodeData) (cwd : str)
    (films scripts : list str) :
  exists r,
    create_matching_index U films scripts = Ok r /\
    timestamp (fst (generate_report cwd r)) = cwd /\
    summary (fst (generate_report cwd r)) = results_stats r /\
    Z.of_nat (length (report_matches (fst (generate_report cwd r))))
    = Z.min 10 (matches_found (summary (fst (generate_report cwd r)))) /\
    forall m, In m (report_matches (fst (generate_report cwd r))) ->
      normalize_title U (script m) = normalize_title U (film m).
Proof.
  rewrite create_matching_index_eq. cbv zeta.
  eexists. split; [reflexivity|].
  unfold generate_report, slice_to.
  cbn [fst timestamp summary report_matches matches results_stats
       matches_found].
  repeat split.
  - rewrite length_firstn. unfold len. lia.
  - intros m Hm. apply firstn_incl in Hm.
    destruct (matched_items_keys _ _ _ _ Hm) as [H1 H2]. congruence.
Qed.

(** X16: the matches printed as examples are the first five records of
    the report, and none when there is no match. *)
Theorem example_matches_in_report (cwd : str) (r : results) :
  example_matches r = slice_to 5 (report_matches (fst (generate_report cwd r)))
  /\ length (example_matches r) = Nat.min 5 (length (matches r)).
Proof.
  unfold example_matches, generate_report, slice_to.
  cbn [fst report_matches].
  rewrite firstn_firstn. change (Nat.min 5 10) with 5.
  destruct (matches r) as [|m l] eqn:E; [split; reflexivity|].
  cbn [truthy]. split; [reflexivity | apply length_firstn].
Qed.

Lemma matcher_report_witness :
  exists r,
    create_matching_index ucd_fragment [lit "Matrix-1999"] [lit "MATRIX"]
    = Ok r /\
    normalize_title ucd_fragment (lit "MATRIX")
    = normalize_title ucd_fragment (lit "Matrix-1999").
Proof.
  destruct (matcher_report ucd_fragment (lit "/tmp") [lit "Matrix-1999"]
              [lit "MATRIX"]) as (r & Hr & _ & _ & _ & H).
  exists r. split; [exact Hr|].
  vm_compute in Hr. injection Hr as <-.
  apply (H {| script := lit "MATRIX";
              film := lit "Matrix-1999";
              normalized := lit "matrix" |}).
  left. reflexivity.
Defined.

(** ** The normalized key *)

Section KeyFacts.

Variable U : UnicodeData.

Local Open Scope N_scope.

Lemma rstrip_last (s t : str) (c : char) :
  rstrip U s = t ++ [c] -> re_space U c = false.
Proof.
  revert t. induction s as [|d s IH]; intros t H.
  - now destruct t.
  - simpl in H. destruct (rstrip U s) as [|e t'] eqn:E.
    + destruct (re_space U d) eqn:Ed; [now destruct t|].
      destruct t as [|x t]; [now inversion H; subst|].
      inversion H as [[Hx Ht]]. now destruct t.
    + destruct t as [|x t]; [discriminate H|].
      inversion H as [[Hx Ht]]. now apply (IH t).
Qed.

(** X17: a normalized key neither starts nor ends with a whitespace
    character. *)
Theorem key_without_outer_whitespace (s : str) :
  (forall c t, normalize_title U s = c :: t -> re_space U c = false) /\
  (forall t c, normalize_title U s = t ++ [c] -> re_space U c = false).
Proof.
  unfold normalize_title, str_strip.
  set (w := str_lower U _). split.
  - intros c t H. pose proof (lstrip_head U w) as Hh.
    destruct (lstrip U w) as [|c0 t0]; [discriminate H|].
    rewrite (@rstrip_cons U c0 t0 Hh) in H. now inversion H; subst.
  - intros t c H. now apply rstrip_last in H.
Qed.

Lemma ascii_key_chars (s : str) (c : char) :
  forallb is_ascii s = true ->
  In c (normalize_title U s) ->
  is_ascii c = true /\ re_word U c || re_space U c = true /\
  ascii_lower c = c.
Proof.
  intros Hs Hc. rewrite forallb_forall in Hs.
  set (x := sub_special U (sub_year U s)).
  assert (Hx : forall d, In d x ->
            is_ascii d = true /\ re_word U d || re_space U d = true).
  { intros d Hd. apply filter_In in Hd as [Hd Hp].
    split; [apply Hs; now apply (@sub_year_In U) | exact Hp]. }
  assert (Hax : forallb is_ascii x = true).
  { apply forallb_forall. intros d Hd. now apply Hx. }
  unfold normalize_title, str_lower in Hc. fold x in Hc.
  rewrite Hax in Hc. apply str_strip_In, in_map_iff in Hc.
  destruct Hc as (d & <- & Hd). destruct (Hx d Hd) as [Ha Hw].
  repeat split.
  - now apply ascii_lower_ascii.
  - now rewrite ascii_lower_class.
  - apply ascii_lower_idem.
Qed.

(** X18: the key of an ASCII title is made of lower-case letters, digits,
    underscores and whitespace only. *)
Theorem ascii_key_alphabet (s : str) :
  forallb is_ascii s = true ->
  forallb (fun c => ascii_islower c || ascii_isdigit c
                    || (c =? underscore) || ascii_isspace c)
    (normalize_title U s) = true.
Proof.
  intros Hs. apply forallb_forall. intros c Hc.
  destruct (ascii_key_chars s c Hs Hc) as (Ha & Hw & Hl).
  unfold re_word, re_space in Hw. rewrite Ha in Hw.
  assert (Hu : ascii_isupper c = false).
  { destruct (ascii_isupper c) eqn:E; [|reflexivity].
    unfold ascii_lower in Hl. rewrite E in Hl. lia. }
  unfold ascii_isalnum in Hw. rewrite Hu in Hw.
  destruct (ascii_islower c), (ascii_isdigit c), (c =? underscore),
    (ascii_isspace c); simpl in *; congruence.
Qed.

Lemma year_here_length (s : str) :
  year_here U s = true -> (length s <= 6)%nat.
Proof.
  destruct s as [|h [|d1 [|d2 [|d3 [|d4 [|c [|c' rest]]]]]]]; simpl;
    try discriminate; try lia.
Qed.

Lemma year_here_not_shifted (c h d1 d2 d3 d4 : char) :
  h = hyphen -> year_here U [c; h; d1; d2; d3; d4] = false.
Proof.
  intros ->. simpl.
  replace (re_digit U hyphen) with false by reflexivity.
  now rewrite andb_false_r.
Qed.

Lemma sub_year_suffix (s : str) (d1 d2 d3 d4 : char) :
  re_digit U d1 = true -> re_digit U d2 = true ->
  re_digit U d3 = true -> re_digit U d4 = true ->
  sub_year U (s ++ [hyphen; d1; d2; d3; d4]) = s.
Proof.
  intros H1 H2 H3 H4. induction s as [|c s IH].
  - simpl. now rewrite H1, H2, H3, H4.
  - change (sub_year U ((c :: s) ++ [hyphen; d1; d2; d3; d4]))
      with (if year_here U (c :: s ++ [hyphen; d1; d2; d3; d4])
            then skipn 4 (s ++ [hyphen; d1; d2; d3; d4])
            else c :: sub_year U (s ++ [hyphen; d1; d2; d3; d4])).
    destruct (year_here U (c :: s ++ [hyphen; d1; d2; d3; d4])) eqn:E.
    + exfalso. pose proof (year_here_length _ E) as Hlen.
      simpl in Hlen. rewrite length_app in Hlen. simpl in Hlen.
      destruct s as [|x s]; [|simpl in Hlen; lia].
      simpl app in E. rewrite year_here_not_shifted in E by reflexivity.
      discriminate.
    + now rewrite IH.
Qed.

Lemma sub_year_suffix_newline (s : str) (d1 d2 d3 d4 : char) :
  re_digit U d1 = true -> re_digit U d2 = true ->
  re_digit U d3 = true -> re_digit U d4 = true ->
  sub_year U (s ++ [hyphen; d1; d2; d3; d4; newline]) = s ++ [newline].
Proof.
  intros H1 H2 H3 H4. induction s as [|c s IH].
  - simpl. now rewrite H1, H2, H3, H4.
  - change (sub_year U ((c :: s) ++ [hyphen; d1; d2; d3; d4; newline]))
      with (if year_here U (c :: s ++ [hyphen; d1; d2; d3; d4; newline])
            then skipn 4 (s ++ [hyphen; d1; d2; d3; d4; newline])
            else c :: sub_year U (s ++ [hyphen; d1; d2; d3; d4; newline])).
    destruct (year_here U (c :: s ++ [hyphen; d1; d2; d3; d4; newline]))
      eqn:E.
    + exfalso. pose proof (year_here_length _ E) as Hlen.
      simpl in Hlen. rewrite length_app in Hlen. simpl in Hlen. lia.
    + simpl. now rewrite IH.
Qed.

(** X19: a hyphen and four digits at the end of a title, also before a
    final newline, are removed, and only these; a title without such a
    suffix has the same key with and without an appended year. *)
Theorem year_suffix_removed (s : str) (d1 d2 d3 d4 : char) :
  re_digit U d1 = true -> re_digit U d2 = true ->
  re_digit U d3 = true -> re_digit U d4 = true ->
  sub_year U (s ++ [hyphen; d1; d2; d3; d4]) = s /\
  sub_year U (s ++ [hyphen; d1; d2; d3; d4; newline]) = s ++ [newline] /\
  (sub_year U s = s ->
   normalize_title U (s ++ [hyphen; d1; d2; d3; d4]) = normalize_title U s).
Proof.
  intros H1 H2 H3 H4.
  split; [now apply sub_year_suffix|].
  split; [now apply sub_year_suffix_newline|].
  intros Hs. unfold normalize_title.
  now rewrite sub_year_suffix, Hs.
Qed.

(** X20: a title without any word or whitespace character has the empty
    key. *)
Theorem special_only_empty_key (s : str) :
  forallb (fun c => negb (re_word U c || re_space U c)) s = true ->
  normalize_title U s = [].
Proof.
  intros H. rewrite forallb_forall in H.
  unfold normalize_title, sub_special.
  rewrite filter_none; [reflexivity|].
  intros c Hc. apply sub_year_In, H in Hc.
  now apply negb_true_iff in Hc.
Qed.

End KeyFacts.

Lemma key_without_outer_whitespace_witness :
  normalize_title ucd_fragment (lit "  Heat ") = lit "heat" /\
  re_space ucd_fragment 0x68%N = false /\
  re_space ucd_fragment 0x74%N = false.
Proof.
  destruct (key_without_outer_whitespace ucd_fragment (lit "  Heat "))
    as [H1 H2].
  split; [reflexivity | split].
  - apply (H1 0x68%N (lit "eat")). reflexivity.
  - apply (H2 (lit "hea") 0x74%N). reflexivity.
Defined.

Lemma ascii_key_alphabet_witness :
  forallb (fun c => ascii_islower c || ascii_isdigit c
                    || (c =? underscore)%N || ascii_isspace c)
    (normalize_title ucd_fragment (lit "The Matrix: Reloaded-2003")) = true.
Proof.
  apply (@ascii_key_alphabet ucd_fragment (lit "The Matrix: Reloaded-2003")).
  reflexivity.
Defined.

Lemma year_suffix_removed_witness :
  normalize_title ucd_fragment (lit "Inception" ++ lit "-2010")
  = normalize_title ucd_fragment (lit "Inception").
Proof.
  apply (@year_suffix_removed ucd_fragment (lit "Inception")
           0x32%N 0x30%N 0x31%N 0x30%N); reflexivity.
Defined.

Lemma special_only_empty_key_witness :
  normalize_title ucd_fragment (lit "?!...") = [].
Proof.
  apply (@special_only_empty_key ucd_fragment (lit "?!...")). reflexivity.
Defined.

(** ** Letter case *)

Section LetterCase.

Variable U : UnicodeData.

Local Open Scope N_scope.

(** Lowering an ASCII character neither makes nor unmakes a character
    below "A", such as a hyphen, a digit or a newline. *)
Lemma ascii_lower_eqb (c k : char) :
  k < 65 -> (ascii_lower c =? k) = (c =? k).
Proof.
  intros Hk. unfold ascii_lower.
  destruct (ascii_isupper c) eqn:E; [|reflexivity].
  apply ascii_isupper_range in E.
  transitivity false; [apply N.eqb_neq | symmetry; apply N.eqb_neq]; lia.
Qed.

Lemma ascii_lower_digit (c : char) :
  is_ascii c = true -> re_digit U (ascii_lower c) = re_digit U c.
Proof.
  intros Ha. unfold re_digit. rewrite ascii_lower_ascii, Ha by exact Ha.
  unfold ascii_lower.
  destruct (ascii_isupper c) eqn:E; [|reflexivity].
  apply ascii_isupper_range in E. unfold ascii_isdigit.
  replace (c + 32 <=? 57) with false by (symmetry; apply N.leb_gt; lia).
  replace (c <=? 57) with false by (symmetry; apply N.leb_gt; lia).
  now rewrite !andb_false_r.
Qed.

Lemma year_here_lower (s : str) :
  Forall (fun c => is_ascii c = true) s ->
  year_here U (map ascii_lower s) = year_here U s.
Proof.
  intros H.
  destruct s as [|h [|d1 [|d2 [|d3 [|d4 rest]]]]]; try reflexivity.
  inversion H as [|? ? _ H1]; subst. inversion H1 as [|? ? A1 H2]; subst.
  inversion H2 as [|? ? A2 H3]; subst. inversion H3 as [|? ? A3 H4]; subst.
  inversion H4 as [|? ? A4 H5]; subst.
  cbn [map year_here].
  rewrite (@ascii_lower_eqb h hyphen) by (unfold hyphen; lia).
  rewrite !ascii_lower_digit by assumption.
  destruct rest as [|c [|c' rest]]; try reflexivity.
  cbn [map]. now rewrite (@ascii_lower_eqb c newline)
    by (unfold newline; lia).
Qed.

Lemma sub_year_lower (s : str) :
  Forall (fun c => is_ascii c = true) s ->
  sub_year U (map ascii_lower s) = map ascii_lower (sub_year U s).
Proof.
  induction s as [|c t IH]; intros H; [reflexivity|].
  change (sub_year U (map ascii_lower (c :: t)))
    with (if year_here U (map ascii_lower (c :: t))
          then skipn 4 (map ascii_lower t)
          else ascii_lower c :: sub_year U (map ascii_lower t)).
  change (sub_year U (c :: t))
    with (if year_here U (c :: t) then skipn 4 t else c :: sub_year U t).
  rewrite (year_here_lower H).
  destruct (year_here U (c :: t)).
  - now rewrite skipn_map.
  - inversion H; subst. simpl. now rewrite IH.
Qed.

Lemma sub_special_lower (s : str) :
  Forall (fun c => is_ascii c = true) s ->
  sub_special U (map ascii_lower s) = map ascii_lower (sub_special U s).
Proof.
  unfold sub_special.
  induction 1 as [|c t Hc _ IH]; [reflexivity|].
  simpl. rewrite (ascii_lower_class U c Hc), IH.
  now destruct (re_word U c || re_space U c).
Qed.

(** X21: the key of an ASCII title does not depend on letter case: the
    title in lower case has the same key. *)
Theorem key_ignores_case (s : str) :
  forallb is_ascii s = true ->
  normalize_title U (str_lower U s) = normalize_title U s.
Proof.
  intros Hs. unfold str_lower at 1. rewrite Hs.
  assert (Ha : Forall (fun c => is_ascii c = true) s).
  { apply Forall_forall. now apply forallb_forall. }
  assert (Hy : Forall (fun c => is_ascii c = true) (sub_year U s)).
  { apply Forall_forall. intros c Hc. apply (@sub_year_In U) in Hc.
    rewrite Forall_forall in Ha. now apply Ha. }
  assert (Hx : forallb is_ascii (sub_special U (sub_year U s)) = true).
  { apply forallb_forall. intros c Hc. apply filter_In in Hc as [Hc _].
    rewrite Forall_forall in Hy. now apply Hy. }
  unfold normalize_title.
  rewrite (sub_year_lower Ha), (sub_special_lower Hy).
  unfold str_lower. rewrite Hx.
  replace (forallb is_ascii (map ascii_lower (sub_special U (sub_year U s))))
    with true.
  - rewrite map_map. f_equal. apply map_ext. intros c.
    apply ascii_lower_idem.
  - symmetry. apply forallb_forall. intros c Hc.
    apply in_map_iff in Hc as (d & <- & Hd).
    apply ascii_lower_ascii. rewrite forallb_forall in Hx. now apply Hx.
Qed.

End LetterCase.

Lemma key_ignores_case_witness :
  normalize_title ucd_fragment (lit "the matrix-1999")
  = normalize_title ucd_fragment (lit "The MATRIX-1999").
Proof.
  apply (@key_ignores_case ucd_fragment (lit "The MATRIX-1999")).
  reflexivity.
Defined.

(** ** Titles with and without a year *)

Section DatedTitles.

Variable U : UnicodeData.

Lemma common_key_record (films scripts : list str) (s f : str) :
  In s scripts -> In f films ->
  normalize_title U s = normalize_title U f ->
  exists m,
    In m (matched_items (film_index U films) (script_index U scripts)) /\
    normalized m = normalize_title U s.
Proof.
  intros Hs Hf Hk.
  assert (H1 : In (normalize_title U s) (dict_keys (script_index U scripts))).
  { apply dict_comp_keys_In. now apply in_map. }
  apply in_map_iff in H1 as ([k v] & Hkv & Hin). simpl in Hkv. subst k.
  assert (H2 : dict_contains (film_index U films) (normalize_title U s)
               = true).
  { apply dict_contains_keys, dict_comp_keys_In. rewrite Hk.
    now apply in_map. }
  unfold dict_contains in H2.
  destruct (dict_get (film_index U films) (normalize_title U s)) as [f0|]
    eqn:E; [|discriminate].
  exists {| script := v; film := f0; normalized := normalize_title U s |}.
  split; [|reflexivity].
  apply matched_items_In. now exists (normalize_title U s), v, f0.
Qed.

(** X22: a script whose name has no year suffix and a film whose slug is
    that name followed by a hyphen and four digits are matched: some match
    record has their common key, which is the key of its script and of
    its film. *)
Theorem script_matches_dated_film (films scripts : list str) (t : str)
    (d1 d2 d3 d4 : char) :
  re_digit U d1 = true -> re_digit U d2 = true ->
  re_digit U d3 = true -> re_digit U d4 = true ->
  sub_year U t = t ->
  In t scripts ->
  In (t ++ [hyphen; d1; d2; d3; d4]) films ->
  exists r,
    create_matching_index U films scripts = Ok r /\
    exists m,
      In m (matches r) /\
      normalized m = normalize_title U t /\
      normalize_title U (script m) = normalize_title U t /\
      normalize_title U (film m) = normalize_title U t.
Proof.
  intros H1 H2 H3 H4 Ht Hs Hf.
  rewrite create_matching_index_eq. eexists. split; [reflexivity|].
  simpl.
  assert (Hk : normalize_title U t
               = normalize_title U (t ++ [hyphen; d1; d2; d3; d4])).
  { unfold normalize_title. now rewrite sub_year_suffix, Ht. }
  destruct (common_key_record films scripts t _ Hs Hf Hk) as (m & Hm & Hn).
  exists m. destruct (matched_items_keys _ _ _ _ Hm) as [Ks Kf].
  repeat split; congruence.
Qed.


End DatedTitles.

Lemma script_matches_dated_film_witness :
  exists r,
    create_matching_index ucd_fragment
      [lit "Heat-1995"; lit "Inception-2010"] [lit "Inception"] = Ok r /\
    exists m, In m (matches r) /\ normalized m = lit "inception".
Proof.
  destruct (@script_matches_dated_film ucd_fragment
              [lit "Heat-1995"; lit "Inception-2010"] [lit "Inception"]
              (lit "Inception") 0x32%N 0x30%N 0x31%N 0x30%N)
    as (r & Hr & m & Hm & Hn & _); try reflexivity.
  - left. reflexivity.
  - right. left. reflexivity.
  - exists r. split; [exact Hr|]. exists m. split; [exact Hm | exact Hn].
Defined.

